(** * database-adv-script/script.py: a shallow embedding

    The script opens [air_bnb_database.db] with Python's [sqlite3] module,
    makes sure the [users] table exists, inserts one fixed row, commits,
    reads the table back, prints it and closes the connection.

    The embedding has three layers, each following the code it stands for:
    - [Sqlite]: what the SQLite engine does for the three statements the
      script sends (table creation, insertion under the table's
      constraints, full scan);
    - [Python]: [repr]/[str] of the values the script prints, and the
      [sqlite3] connection and cursor calls with the module's implicit
      transaction handling, as a state-and-exception monad over the
      process state;
    - [Script]: the script itself, statement by statement.

    Failures of the environment (I/O errors, a locked or malformed file, a
    full disk) are not part of the model. *)

From Stdlib Require Import ZArith List String Ascii Bool Lia DecimalString.
From Stdlib Require Import Permutation Sorted DecimalZ DecimalPos.
Import ListNotations.

Local Open Scope string_scope.
Local Open Scope Z_scope.

(** ** The store *)

Module Sqlite.

(** A row of [users (id INTEGER PRIMARY KEY, name TEXT NOT NULL,
    email TEXT UNIQUE NOT NULL)].  [id] is the table's rowid, a signed
    64-bit integer; the two text columns cannot hold NULL.  Characters of
    a text are code points below 256. *)
Record row : Type := mkRow { id : Z; name : string; email : string }.

(** The rows of the table in the order a full scan yields them, which is
    the order of the rowid b-tree: ascending [id]. *)
Definition table : Type := list row.

(** A database file holds the [users] table or does not hold it yet.  The
    only schema considered for [users] is the one the script creates. *)
Record database : Type := mkDb { users : option table }.

Definition empty_database : database := {| users := None |}.

(** The error codes the three statements can end with: SQLITE_CONSTRAINT
    with the failed constraint, and SQLITE_ERROR with its message. *)
Inductive constraint : Type :=
| NOT_NULL (column : string)
| UNIQUE (column : string).

Inductive error : Type :=
| SQLITE_CONSTRAINT (c : constraint)
| SQLITE_ERROR (msg : string).

Definition result (A : Type) : Type := (A + error)%type.

(** The statements of the script.  [CREATE_TABLE true] is line 10,
    [INSERT (Some "John Doe") (Some "mosaproject1@gmail.com")] is line 14
    and [SELECT] is line 20.  [None] as an inserted value is SQL NULL. *)
Inductive statement : Type :=
| CREATE_TABLE (if_not_exists : bool)
| INSERT (name email : option string)
| SELECT.

(** Compiling a statement against the schema fails when it names a table
    that is missing, or creates one that is there without
    [IF NOT EXISTS]. *)
Definition prepare (q : statement) (db : database) : option error :=
  match q, users db with
  | CREATE_TABLE false, Some _ =>
      Some (SQLITE_ERROR "table users already exists")
  | INSERT _ _, None | SELECT, None =>
      Some (SQLITE_ERROR "no such table: users")
  | _, _ => None
  end.

(** [CREATE TABLE [IF NOT EXISTS] users (...)]. *)
Definition create_table (if_not_exists : bool) (db : database)
  : result database :=
  match users db with
  | None => inl {| users := Some [] |}
  | Some _ =>
      if if_not_exists then inl db
      else inr (SQLITE_ERROR "table users already exists")
  end.

(** *** Rowid allocation

    The insertion supplies no [id], so the engine allocates the rowid: 1
    in an empty table, otherwise one more than the largest rowid in use.
    When the largest rowid is already 9223372036854775807 the engine
    draws 64-bit random numbers [r] and tries the candidates
    [(r & (MAX_ROWID >> 1)) + 1] until one is not in use.  [rnd] is the
    draw this search ends with; it is the only input of a run besides the
    file.  Its candidate is taken as it is: the draws that the search
    would pass over are not told apart here, and the exit with
    SQLITE_FULL after 100 candidates in use in a row is left out with the
    other failures of the environment. *)
Definition MAX_ROWID : Z := 9223372036854775807.

Definition largest_rowid (t : table) : option Z :=
  match t with
  | [] => None
  | r :: t' => Some (fold_left Z.max (map id t') (id r))
  end.

Definition new_rowid (rnd : Z) (t : table) : Z :=
  match largest_rowid t with
  | None => 1
  | Some v =>
      if v <? MAX_ROWID then v + 1
      else Z.land rnd (Z.shiftr MAX_ROWID 1) + 1
  end.

(** The new row goes to its place in rowid order. *)
Fixpoint insert_row (r : row) (t : table) : table :=
  match t with
  | [] => [r]
  | x :: t' => if id r <? id x then r :: t else x :: insert_row r t'
  end.

Definition email_in_use (e : string) (t : table) : bool :=
  existsb (fun r => String.eqb (email r) e) t.

(** [INSERT INTO users (name, email) VALUES (n, e)] on the table: the
    rowid is allocated first, then the NOT NULL constraints are checked
    in column order, then the UNIQUE index on [email]; the default
    conflict handling (ABORT) leaves the table as it was. *)
Definition insert_into_users (rnd : Z) (n e : option string) (t : table)
  : result table :=
  let v := new_rowid rnd t in
  match n, e with
  | None, _ => inr (SQLITE_CONSTRAINT (NOT_NULL "users.name"))
  | Some _, None => inr (SQLITE_CONSTRAINT (NOT_NULL "users.email"))
  | Some n', Some e' =>
      if email_in_use e' t
      then inr (SQLITE_CONSTRAINT (UNIQUE "users.email"))
      else inl (insert_row {| id := v; name := n'; email := e' |} t)
  end.

Definition insert (rnd : Z) (n e : option string) (db : database)
  : result database :=
  match users db with
  | None => inr (SQLITE_ERROR "no such table: users")
  | Some t =>
      match insert_into_users rnd n e t with
      | inl t' => inl {| users := Some t' |}
      | inr err => inr err
      end
  end.

(** [SELECT * FROM users]: a full scan. *)
Definition select (db : database) : result table :=
  match users db with
  | None => inr (SQLITE_ERROR "no such table: users")
  | Some t => inl t
  end.

End Sqlite.

(** ** The Python side *)

Module Python.

Import Sqlite.

(** *** [repr] and [str]

    [print(row)] writes [str(row)]; a row is a tuple and [str] of a tuple
    is its [repr]: the [repr]s of the elements separated by [", "] inside
    parentheses, with a trailing comma for a tuple of one element. *)
Inductive object : Type :=
| Int (v : Z)
| Str (s : string).

Definition apostrophe : ascii := "'"%char.
Definition double_quote : ascii := "034"%char.
Definition backslash : ascii := "\"%char.
Definition newline : ascii := "010"%char.

Definition hex_digit (n : N) : ascii :=
  match n with
  | 0 => "0" | 1 => "1" | 2 => "2" | 3 => "3" | 4 => "4" | 5 => "5"
  | 6 => "6" | 7 => "7" | 8 => "8" | 9 => "9" | 10 => "a" | 11 => "b"
  | 12 => "c" | 13 => "d" | 14 => "e" | _ => "f"
  end%N%char.

(** Printable code points from U+0080 to U+00FF: all but the C1 controls,
    the no-break space U+00A0 and the soft hyphen U+00AD. *)
Definition isprintable_latin1 (n : N) : bool :=
  (negb (n <=? 160) && negb (n =? 173))%N.

(** One character of a string inside [repr], for the chosen quote. *)
Definition repr_char (quote c : ascii) : string :=
  let n := N_of_ascii c in
  let hex :=
    String backslash
      (String "x" (String (hex_digit (n / 16)) (String (hex_digit (n mod 16)) ""))) in
  if (Ascii.eqb c quote || Ascii.eqb c backslash)%bool
  then String backslash (String c "")
  else if (n =? 9)%N then String backslash "t"
  else if (n =? 10)%N then String backslash "n"
  else if (n =? 13)%N then String backslash "r"
  else if ((n <? 32) || (n =? 127))%N%bool then hex
  else if (n <? 127)%N then String c ""
  else if isprintable_latin1 n then String c ""
  else hex.

Fixpoint contains (c : ascii) (s : string) : bool :=
  match s with
  | EmptyString => false
  | String x s' => (Ascii.eqb x c || contains c s')%bool
  end.

Fixpoint repr_chars (quote : ascii) (s : string) : string :=
  match s with
  | EmptyString => EmptyString
  | String c s' => (repr_char quote c ++ repr_chars quote s')%string
  end.

(** [repr] of a [str]: in apostrophes, unless the string holds an
    apostrophe and no double quote. *)
Definition repr_str (s : string) : string :=
  let quote :=
    if (contains apostrophe s && negb (contains double_quote s))%bool
    then double_quote else apostrophe in
  String quote (repr_chars quote s ++ String quote "")%string.

Definition repr (o : object) : string :=
  match o with
  | Int v => NilZero.string_of_int (Z.to_int v)
  | Str s => repr_str s
  end.

Fixpoint join (sep : string) (l : list string) : string :=
  match l with
  | [] => ""
  | [x] => x
  | x :: l' => (x ++ sep ++ join sep l')%string
  end.

Definition repr_tuple (t : list object) : string :=
  match t with
  | [x] => ("(" ++ repr x ++ ",)")%string
  | _ => ("(" ++ join ", " (map repr t) ++ ")")%string
  end.

(** The tuple [sqlite3] builds for a fetched row: the columns in the
    order of the table, (id, name, email). *)
Definition tuple_of_row (r : row) : list object :=
  [Int (id r); Str (name r); Str (email r)].

Definition str (r : row) : string := repr_tuple (tuple_of_row r).

(** *** The process

    What the script can observe or change: the database file, the
    connection and its open transaction, the cursor's result set and the
    text written to standard output. *)
Record process : Type := mkProcess {
  file : option database;     (* air_bnb_database.db; None: no such file *)
  connected : bool;           (* the connection handle is open *)
  pending : option database;  (* the open transaction's uncommitted image *)
  result_set : table;         (* rows the cursor has left to fetch *)
  stdout : string
}.

(** A process that starts with the given file and nothing else. *)
Definition start (f : option database) : process :=
  {| file := f; connected := false; pending := None;
     result_set := []; stdout := "" |}.

(** The exceptions of [sqlite3] that the three statements can raise. *)
Inductive exception : Type :=
| IntegrityError (c : constraint)
| OperationalError (msg : string)
| ProgrammingError (msg : string).

Definition exception_of (e : error) : exception :=
  match e with
  | SQLITE_CONSTRAINT c => IntegrityError c
  | SQLITE_ERROR msg => OperationalError msg
  end.

(** A statement of the script returns a value or raises; either way it
    leaves a process state.  Nothing in the script catches an exception,
    so [bind] skips what follows a [Raise]. *)
Inductive outcome (A : Type) : Type :=
| Return (a : A)
| Raise (e : exception).
Arguments Return {A} a.
Arguments Raise {A} e.

Definition Py (A : Type) : Type := process -> outcome A * process.

Definition ret {A} (a : A) : Py A := fun p => (Return a, p).

Definition raise {A} (e : exception) : Py A := fun p => (Raise e, p).

Definition bind {A B} (m : Py A) (k : A -> Py B) : Py B :=
  fun p =>
    match m p with
    | (Return a, p') => k a p'
    | (Raise e, p') => (Raise e, p')
    end.

Notation "x <- m ;; k" := (bind m (fun x => k))
  (at level 61, m at next level, right associativity).
Notation "m ;; k" := (bind m (fun _ => k))
  (at level 61, right associativity).

Fixpoint for_each {A} (l : list A) (body : A -> Py unit) : Py unit :=
  match l with
  | [] => ret tt
  | x :: l' => body x ;; for_each l' body
  end.

(** *** The [sqlite3] calls of the script *)

(** The database as the connection sees it: the image of its open
    transaction, or else the file. *)
Definition image (p : process) : database :=
  match pending p, file p with
  | Some db, _ => db
  | None, Some db => db
  | None, None => empty_database
  end.

Definition set_file (db : database) (p : process) : process :=
  {| file := Some db; connected := connected p; pending := pending p;
     result_set := result_set p; stdout := stdout p |}.

Definition set_pending (t : option database) (p : process) : process :=
  {| file := file p; connected := connected p; pending := t;
     result_set := result_set p; stdout := stdout p |}.

Definition set_result_set (t : table) (p : process) : process :=
  {| file := file p; connected := connected p; pending := pending p;
     result_set := t; stdout := stdout p |}.

Definition set_stdout (s : string) (p : process) : process :=
  {| file := file p; connected := connected p; pending := pending p;
     result_set := result_set p; stdout := s |}.

Definition closed_database : exception :=
  ProgrammingError "Cannot operate on a closed database.".

(** [sqlite3.connect('air_bnb_database.db')]: the file is created, with
    no table in it, when it does not exist. *)
Definition connect : Py unit :=
  fun p =>
    let db :=
      match file p with
      | Some db => db
      | None => empty_database
      end in
    (Return tt,
     {| file := Some db; connected := true; pending := None;
        result_set := result_set p; stdout := stdout p |}).

(** [connection.cursor()]: a cursor with nothing to fetch. *)
Definition cursor : Py unit :=
  fun p =>
    if connected p then (Return tt, set_result_set [] p)
    else (Raise closed_database, p).

(** Where a statement's new image of the database goes: into the open
    transaction, or straight to the file when none is open. *)
Definition write (db : database) (p : process) : process :=
  match pending p with
  | Some _ => set_pending (Some db) p
  | None => set_file db p
  end.

(** The implicit BEGIN: the transaction starts from what the connection
    sees; nothing happens when one is open already. *)
Definition begin (p : process) : process :=
  match pending p with
  | Some _ => p
  | None => set_pending (Some (image p)) p
  end.

(** [cursor.execute(q)].  The connection is in the module's default
    transaction mode: a transaction is opened before an INSERT when none
    is open, and only [commit] ends it; CREATE TABLE and SELECT open
    none.  A statement that fails changes nothing in the database, and a
    transaction opened for it stays open. *)
Definition execute (rnd : Z) (q : statement) : Py unit :=
  fun p =>
    if negb (connected p) then (Raise closed_database, p)
    else
      let p := set_result_set [] p in
      match prepare q (image p) with
      | Some err => (Raise (exception_of err), p)
      | None =>
          match q with
          | CREATE_TABLE if_not_exists =>
              match create_table if_not_exists (image p) with
              | inl db => (Return tt, write db p)
              | inr err => (Raise (exception_of err), p)
              end
          | INSERT n e =>
              let p := begin p in
              match insert rnd n e (image p) with
              | inl db => (Return tt, write db p)
              | inr err => (Raise (exception_of err), p)
              end
          | SELECT =>
              match select (image p) with
              | inl t => (Return tt, set_result_set t p)
              | inr err => (Raise (exception_of err), p)
              end
          end
      end.

(** [connection.commit()]: the open transaction's image becomes the
    file. *)
Definition commit : Py unit :=
  fun p =>
    if negb (connected p) then (Raise closed_database, p)
    else
      match pending p with
      | Some db => (Return tt, set_pending None (set_file db p))
      | None => (Return tt, p)
      end.

(** [cursor.fetchall()]: the rows left in the result set.  The texts of a
    row are sequences of code points; a stored text that is not valid
    UTF-8, on which the real call raises while decoding, is not a value
    of [row]. *)
Definition fetchall : Py table :=
  fun p =>
    if negb (connected p) then (Raise closed_database, p)
    else (Return (result_set p), set_result_set [] p).

(** [print(s)]: the text and a newline go to standard output. *)
Definition print (s : string) : Py unit :=
  fun p =>
    (Return tt, set_stdout (stdout p ++ s ++ String newline "") p).

(** [connection.close()]: the handle is released; a transaction still
    open is rolled back. *)
Definition close : Py unit :=
  fun p =>
    (Return tt,
     {| file := file p; connected := false; pending := None;
        result_set := result_set p; stdout := stdout p |}).

End Python.

(** ** The script *)

Module Script.

Import Sqlite Python.

(** Lines 24 to 26: the header, then every fetched row. *)
Definition display (rows : table) : Py unit :=
  print "Users in the database:" ;;
  for_each rows (fun row => print (str row)).

(** Lines 4 to 29 of [script.py], in order.  [n] and [e] are the values
    of the INSERT statement of line 14. *)
Definition sequence (rnd : Z) (n e : option string) : Py unit :=
  connect ;;
  cursor ;;
  execute rnd (CREATE_TABLE true) ;;
  execute rnd (INSERT n e) ;;
  commit ;;
  execute rnd SELECT ;;
  rows <- fetchall ;;
  display rows ;;
  close.

Definition script (rnd : Z) : Py unit :=
  sequence rnd (Some "John Doe") (Some "mosaproject1@gmail.com").

(** A run of the script on a file: how it ends and the process state it
    ends in. *)
Definition run (rnd : Z) (f : option database) : outcome unit * process :=
  script rnd (start f).

(** The script up to the commit of line 17, and from the SELECT of
    line 20 on. *)
Definition through_commit (rnd : Z) (n e : option string) : Py unit :=
  connect ;;
  cursor ;;
  execute rnd (CREATE_TABLE true) ;;
  execute rnd (INSERT n e) ;;
  commit.

Definition from_select (rnd : Z) : Py unit :=
  execute rnd SELECT ;;
  rows <- fetchall ;;
  display rows ;;
  close.

(** The rows of the [users] table of a file; none when the file or the
    table is missing. *)
Definition rows_of (f : option database) : table :=
  match f with
  | Some {| users := Some t |} => t
  | _ => []
  end.

(** The row the script inserts, under the rowid [v]. *)
Definition john_doe (v : Z) : row :=
  {| id := v; name := "John Doe"; email := "mosaproject1@gmail.com" |}.

(** *** Steps of the script as transitions

    Any of the script's calls, taken by itself, maps a process state to
    the state it leaves, whether it returns or raises. *)
Inductive call : Type :=
| Connect
| Cursor
| Execute (q : statement)
| Commit
| Fetchall
| Print (s : string)
| Close.

Definition perform (rnd : Z) (c : call) (p : process) : process :=
  match c with
  | Connect => snd (connect p)
  | Cursor => snd (cursor p)
  | Execute q => snd (execute rnd q p)
  | Commit => snd (commit p)
  | Fetchall => snd (fetchall p)
  | Print s => snd (print s p)
  | Close => snd (close p)
  end.

(** The calls the script makes, with the statements it sends. *)
Definition of_script (c : call) : Prop :=
  match c with
  | Execute (CREATE_TABLE if_not_exists) => if_not_exists = true
  | Execute (INSERT n e) =>
      n = Some "John Doe" /\ e = Some "mosaproject1@gmail.com"
  | _ => True
  end.

(** The states a process can be in when the script, and nothing else,
    has worked on the file: the first run starts without the file, a
    later run starts from the file the earlier ones left. *)
Inductive reachable : process -> Prop :=
| reach_fresh : reachable (start None)
| reach_call (rnd : Z) (c : call) (p : process) :
    reachable p -> of_script c -> reachable (perform rnd c p)
| reach_rerun (p : process) :
    reachable p -> reachable (start (file p)).

(** Pairwise distinct ids and pairwise distinct emails. *)
Definition distinct (db : option database) : Prop :=
  NoDup (map id (rows_of db)) /\ NoDup (map email (rows_of db)).

End Script.

(** ** The output as the specification words it *)

Module Spec.

Import Sqlite Python.

(** One line per row: the field values in the order (id, name, email),
    the id in decimal and the texts quoted, separated by a comma and a
    space, in parentheses. *)
Definition line (r : row) : string :=
  ("(" ++ repr (Int (id r)) ++ ", " ++ repr (Str (name r)) ++ ", "
       ++ repr (Str (email r)) ++ ")")%string.

(** The header line, then the rows' lines in the order retrieved, each
    ended by a newline. *)
Fixpoint lines (rows : table) : string :=
  match rows with
  | [] => ""
  | r :: rows' => (line r ++ String newline "" ++ lines rows')%string
  end.

Definition output (rows : table) : string :=
  ("Users in the database:" ++ String newline "" ++ lines rows)%string.

Fixpoint count (c : ascii) (s : string) : nat :=
  match s with
  | EmptyString => O
  | String x s' => ((if Ascii.eqb x c then 1 else 0) + count c s')%nat
  end.

End Spec.

(** ** The script stopped before its commit *)

Module Partial.

Import Sqlite Python.

(** Lines 4 to 14: the script up to and with the INSERT, before the commit
    of line 17. *)
Definition through_insert (rnd : Z) (n e : option string) : Py unit :=
  connect ;;
  cursor ;;
  execute rnd (CREATE_TABLE true) ;;
  execute rnd (INSERT n e).

End Partial.

(** ** Reading the printed text back

    A reader for what [repr] writes, used to show that the printed text
    tells the rows apart.  It is no part of the script. *)

Module Reader.

Import Sqlite Python.

(** The value of a lowercase hexadecimal digit, from its code point. *)
Definition hex_value (c : ascii) : option N :=
  let n := N_of_ascii c in
  if ((48 <=? n) && (n <=? 57))%N%bool then Some (n - 48)%N
  else if ((97 <=? n) && (n <=? 102))%N%bool then Some (n - 87)%N
  else None.

Definition push (c : ascii) (r : option (string * string))
  : option (string * string) :=
  match r with
  | Some (s, rest) => Some (String c s, rest)
  | None => None
  end.

(** The characters up to the closing quote, with the escapes undone, and
    the text after the quote. *)
Fixpoint read_chars (quote : ascii) (s : string)
  : option (string * string) :=
  match s with
  | EmptyString => None
  | String c s1 =>
      if Ascii.eqb c quote then Some (EmptyString, s1)
      else if Ascii.eqb c backslash then
        match s1 with
        | EmptyString => None
        | String d s2 =>
            if Ascii.eqb d "x" then
              match s2 with
              | String h1 (String h2 s3) =>
                  match hex_value h1, hex_value h2 with
                  | Some a, Some b =>
                      push (ascii_of_N (16 * a + b)) (read_chars quote s3)
                  | _, _ => None
                  end
              | _ => None
              end
            else if Ascii.eqb d "t" then push "009" (read_chars quote s2)
            else if Ascii.eqb d "n" then push "010" (read_chars quote s2)
            else if Ascii.eqb d "r" then push "013" (read_chars quote s2)
            else push d (read_chars quote s2)
        end
      else push c (read_chars quote s1)
  end%char.

(** A quoted text at the head of [s]. *)
Definition read_quoted (s : string) : option (string * string) :=
  match s with
  | EmptyString => None
  | String q s1 =>
      if (Ascii.eqb q apostrophe || Ascii.eqb q double_quote)%bool
      then read_chars q s1
      else None
  end.

(** Characters [repr] writes as they are, whatever the quote: printable
    ASCII other than the apostrophe and the backslash. *)
Definition plain (c : ascii) : bool :=
  let n := N_of_ascii c in
  ((32 <=? n) && (n <? 127) && negb (Ascii.eqb c apostrophe)
   && negb (Ascii.eqb c backslash))%N%bool.

Fixpoint all_plain (s : string) : bool :=
  match s with
  | EmptyString => true
  | String c s' => (plain c && all_plain s')%bool
  end.

End Reader.

(** ** Properties *)

Import Sqlite Python Script.

(** *** Strings *)

Lemma append_assoc (a b c : string) :
  ((a ++ b) ++ c = a ++ (b ++ c))%string.
Proof.
  induction a as [|x a IH]; simpl; [reflexivity | now rewrite IH].
Qed.

Lemma append_empty_r (a : string) : (a ++ "" = a)%string.
Proof.
  induction a as [|x a IH]; simpl; [reflexivity | now rewrite IH].
Qed.


(** *** [repr] never writes a newline *)









(** [str] of a row is the line the specification describes. *)
Lemma str_line (r : row) : str r = Spec.line r.
Proof.
  unfold str, Spec.line, tuple_of_row, repr_tuple, join, map.
  now rewrite !append_assoc.
Qed.

(** *** The print loop *)

Lemma for_each_print (rows : table) (p : process) :
  for_each rows (fun row => print (str row)) p =
  (Return tt, set_stdout (stdout p ++ Spec.lines rows) p).
Proof.
  revert p. induction rows as [|r rows IH]; intros p.
  - simpl. rewrite append_empty_r. now destruct p.
  - cbn [for_each]. unfold bind at 1. cbn [print].
    rewrite IH, str_line. unfold set_stdout. cbn [stdout file connected pending result_set].
    cbn [Spec.lines]. now rewrite !append_assoc.
Qed.

Lemma display_output (rows : table) (p : process) :
  display rows p = (Return tt, set_stdout (stdout p ++ Spec.output rows) p).
Proof.
  unfold display, bind. cbn [print]. rewrite for_each_print.
  unfold set_stdout, Spec.output.
  cbn [stdout file connected pending result_set].
  now rewrite !append_assoc.
Qed.

(** *** A run, in one equation

    What the script does with a file is decided by the insertion into the
    rows the file holds: when it succeeds, the new table is committed,
    printed and the connection closed; when it fails, the script stops at
    line 14 with the table as it was, the transaction of the INSERT and
    the connection still open, and nothing printed. *)
Lemma sequence_start (rnd : Z) (n e : option string) (f : option database) :
  sequence rnd n e (start f) =
  match insert_into_users rnd n e (rows_of f) with
  | inl t =>
      (Return tt,
       {| file := Some {| users := Some t |}; connected := false;
          pending := None; result_set := [];
          stdout := Spec.output t |})
  | inr err =>
      (Raise (exception_of err),
       {| file := Some {| users := Some (rows_of f) |}; connected := true;
          pending := Some {| users := Some (rows_of f) |};
          result_set := []; stdout := "" |})
  end.
Proof.
  unfold sequence.
  destruct f as [[[t|]]|]; cbn -[insert_into_users display];
    unfold bind; cbn -[insert_into_users display];
    unfold insert; cbn -[insert_into_users display];
    destruct (insert_into_users rnd n e _) as [t'|err];
    cbn -[display]; try reflexivity;
    rewrite display_output; reflexivity.
Qed.

Lemma email_in_use_iff (e : string) (t : table) :
  email_in_use e t = true <-> exists r, In r t /\ email r = e.
Proof.
  unfold email_in_use. rewrite existsb_exists.
  split; intros [r [Hin He]]; exists r; split; auto;
    now apply String.eqb_eq.
Qed.

(** *** The claims *)

(** C1.  A run on a store file that does not exist returns normally,
    leaves the file with a [users] table, and the table holds exactly one
    row: id 1, name 'John Doe', email 'mosaproject1@gmail.com'.  The id
    the store assigns in a new table is 1 whatever the engine's random
    draw. *)
Theorem fresh_store_run (rnd : Z) :
  fst (run rnd None) = Return tt /\
  file (snd (run rnd None)) =
  Some {| users :=
            Some [ {| id := 1; name := "John Doe";
                      email := "mosaproject1@gmail.com" |} ] |}.
Proof.
  split; reflexivity.
Qed.

(** C2.  When the [users] table already holds a row with the email
    'mosaproject1@gmail.com', the run ends in the IntegrityError of the
    UNIQUE constraint on [users.email], raised by the INSERT and caught by
    nothing: no later line runs (nothing is printed), and the table is the
    one the run found, in the file and in what the connection sees. *)
Theorem duplicate_email_run (rnd : Z) (t : table) :
  (exists r, In r t /\ email r = "mosaproject1@gmail.com") ->
  let f := Some {| users := Some t |} in
  fst (run rnd f) = Raise (IntegrityError (UNIQUE "users.email")) /\
  file (snd (run rnd f)) = f /\
  image (snd (run rnd f)) = {| users := Some t |} /\
  stdout (snd (run rnd f)) = "".
Proof.
  intros Hin f. apply email_in_use_iff in Hin.
  unfold run, script. rewrite sequence_start.
  subst f. cbn [rows_of users]. unfold insert_into_users. rewrite Hin.
  repeat split.
Qed.

(** The second run of the script on the file its first run left. *)
Lemma duplicate_email_run_second_run :
  (exists r, In r [john_doe 1] /\ email r = "mosaproject1@gmail.com") /\
  file (snd (run 0 None)) = Some {| users := Some [john_doe 1] |} /\
  fst (run 0 (file (snd (run 0 None))))
  = Raise (IntegrityError (UNIQUE "users.email")) /\
  file (snd (run 0 (file (snd (run 0 None))))) = file (snd (run 0 None)).
Proof.
  assert (H : exists r, In r [john_doe 1] /\
                        email r = "mosaproject1@gmail.com").
  { exists (john_doe 1). split; [left|]; reflexivity. }
  split; [exact H|]. split; [reflexivity|].
  destruct (duplicate_email_run 0 [john_doe 1] H) as [Hraise [Hfile _]].
  split; [exact Hraise | exact Hfile].
Defined.

(** C3, on the code.  The second run of the script stops at the INSERT of
    line 14 with the IntegrityError, and the process state it stops in
    still has the connection open: line 29, the only [connection.close()],
    is not reached.  A run that returns does close the connection. *)
Theorem close_not_reached_on_failure (rnd rnd' : Z) :
  let f := file (snd (run rnd None)) in
  fst (run rnd' f) = Raise (IntegrityError (UNIQUE "users.email")) /\
  connected (snd (run rnd' f)) = true /\
  connected (snd (run rnd None)) = false.
Proof.
  repeat split.
Qed.

(** C4.  With the connection open, the creation step of line 10 returns
    without an exception, and running it again returns as well and leaves
    the process state of the first time.  When the table is already
    there, the first time changes neither the file nor the open
    transaction, so every row is kept. *)
Theorem create_table_idempotent (rnd : Z) (p : process) :
  connected p = true ->
  let once := execute rnd (CREATE_TABLE true) p in
  let twice := execute rnd (CREATE_TABLE true) (snd once) in
  fst once = Return tt /\
  fst twice = Return tt /\
  snd twice = snd once /\
  (forall t, users (image p) = Some t ->
             file (snd once) = file p /\
             pending (snd once) = pending p /\
             users (image (snd once)) = Some t).
Proof.
  intros Hopen.
  destruct p as [f c pend rs out]. cbn in Hopen. subst c.
  destruct pend as [[[t|]]|]; destruct f as [[[t'|]]|];
    cbn; repeat split; intros; try congruence; try discriminate.
Qed.

Lemma create_table_idempotent_after_first_run :
  connected (snd (connect (start (file (snd (run 0 None))))))  = true /\
  fst (execute 0 (CREATE_TABLE true)
         (snd (connect (start (file (snd (run 0 None))))))) = Return tt /\
  file (snd (execute 0 (CREATE_TABLE true)
               (snd (connect (start (file (snd (run 0 None))))))))
  = Some {| users := Some [john_doe 1] |}.
Proof.
  split; [reflexivity|].
  pose (p := snd (connect (start (file (snd (run 0 None)))))).
  destruct (create_table_idempotent 0 p eq_refl) as [H1 [_ [_ H4]]].
  split; [exact H1|].
  destruct (H4 [john_doe 1] eq_refl) as [Hf _].
  exact Hf.
Defined.

(** *** Insertion *)

Lemma insert_row_split (r : row) (t : table) :
  exists t1 t2, t = (t1 ++ t2)%list /\ insert_row r t = (t1 ++ r :: t2)%list.
Proof.
  induction t as [|x t [t1 [t2 [Ht Hi]]]]; simpl.
  - exists [], []. split; reflexivity.
  - destruct (id r <? id x).
    + exists [], (x :: t). split; reflexivity.
    + exists (x :: t1), t2. split; simpl; congruence.
Qed.

Lemma in_insert_row (r x : row) (t : table) :
  In x (insert_row r t) <-> x = r \/ In x t.
Proof.
  destruct (insert_row_split r t) as [t1 [t2 [-> ->]]].
  rewrite !in_app_iff. simpl.
  split; intros H; intuition congruence.
Qed.

(** The script's insertion into a table that does not hold its email. *)
Lemma insert_john_doe (rnd : Z) (t : table) :
  email_in_use "mosaproject1@gmail.com" t = false ->
  insert_into_users rnd (Some "John Doe") (Some "mosaproject1@gmail.com") t
  = inl (insert_row (john_doe (new_rowid rnd t)) t).
Proof.
  intros H. unfold insert_into_users. now rewrite H.
Qed.

Lemma through_commit_start (rnd : Z) (n e : option string)
  (f : option database) :
  through_commit rnd n e (start f) =
  match insert_into_users rnd n e (rows_of f) with
  | inl t =>
      (Return tt,
       {| file := Some {| users := Some t |}; connected := true;
          pending := None; result_set := []; stdout := "" |})
  | inr err =>
      (Raise (exception_of err),
       {| file := Some {| users := Some (rows_of f) |}; connected := true;
          pending := Some {| users := Some (rows_of f) |};
          result_set := []; stdout := "" |})
  end.
Proof.
  unfold through_commit.
  destruct f as [[[t|]]|]; cbn -[insert_into_users];
    unfold bind; cbn -[insert_into_users];
    unfold insert; cbn -[insert_into_users];
    destruct (insert_into_users rnd n e _) as [t'|err];
    reflexivity.
Qed.

Lemma line_in_lines (r : row) (t : table) :
  In r t ->
  exists before after,
    Spec.lines t
    = (before ++ Spec.line r ++ String newline "" ++ after)%string.
Proof.
  induction t as [|x t IH]; intros Hin; [contradiction|].
  destruct Hin as [->|Hin].
  - exists "", (Spec.lines t). reflexivity.
  - destruct (IH Hin) as [b [a Hl]].
    exists (Spec.line x ++ String newline "" ++ b)%string, a.
    cbn [Spec.lines]. rewrite Hl. now rewrite !append_assoc.
Qed.

(** C6, as the code has it.  A run whose INSERT gives NULL for [name] ends
    in the IntegrityError of the NOT NULL constraint on [users.name], and
    the rows of the table are the ones the run found, in the file and in
    what the connection sees. *)
Theorem null_name_rejected (rnd : Z) (e : option string)
  (f : option database) :
  fst (sequence rnd None e (start f))
  = Raise (IntegrityError (NOT_NULL "users.name")) /\
  rows_of (file (snd (sequence rnd None e (start f)))) = rows_of f /\
  users (image (snd (sequence rnd None e (start f)))) = Some (rows_of f).
Proof.
  rewrite sequence_start. repeat split.
Qed.

(** C6 fails for the empty name: NOT NULL rejects NULL only.  A run whose
    INSERT gives the empty text for [name] returns, and the table has the
    new row. *)
Lemma empty_name_accepted :
  fst (sequence 0 (Some "") (Some "a@x.com") (start None)) = Return tt /\
  fst (sequence 0 (Some "") (Some "a@x.com") (start None))
  <> Raise (IntegrityError (NOT_NULL "users.name")) /\
  rows_of (file (snd (sequence 0 (Some "") (Some "a@x.com") (start None))))
  = [ {| id := 1; name := ""; email := "a@x.com" |} ] /\
  rows_of (file (snd (sequence 0 (Some "") (Some "a@x.com") (start None))))
  <> rows_of None.
Proof.
  repeat split; discriminate.
Qed.

(** C7.  In a run that returns, the script up to line 17 has returned in
    a state where the file itself holds the inserted row and no
    transaction is open; the SELECT of line 20 runs from that state, its
    result set is the table of the file, and the output of the run has
    the line of the inserted row. *)
Theorem commit_before_read (rnd : Z) (f : option database) (p : process) :
  run rnd f = (Return tt, p) ->
  exists (v : Z) (committed : process),
    through_commit rnd (Some "John Doe") (Some "mosaproject1@gmail.com")
      (start f) = (Return tt, committed) /\
    In (john_doe v) (rows_of (file committed)) /\
    pending committed = None /\
    result_set (snd (execute rnd SELECT committed))
    = rows_of (file committed) /\
    from_select rnd committed = (Return tt, p) /\
    exists before after,
      stdout p
      = (before ++ str (john_doe v) ++ String newline "" ++ after)%string.
Proof.
  unfold run, script. rewrite sequence_start. intros Hrun.
  unfold insert_into_users in Hrun.
  destruct (email_in_use "mosaproject1@gmail.com" (rows_of f)) eqn:Huse;
    [discriminate|].
  injection Hrun as <-.
  exists (new_rowid rnd (rows_of f)).
  eexists. rewrite through_commit_start, (insert_john_doe _ _ Huse).
  split; [reflexivity|].
  cbn [file pending rows_of users].
  split; [apply in_insert_row; now left|].
  split; [reflexivity|].
  split; [reflexivity|].
  split.
  - unfold from_select, bind. cbn -[display insert_row].
    rewrite display_output. reflexivity.
  - cbn [stdout]. unfold Spec.output.
    destruct (line_in_lines (john_doe (new_rowid rnd (rows_of f)))
                (insert_row (john_doe (new_rowid rnd (rows_of f))) (rows_of f)))
      as [b [a Hl]]; [apply in_insert_row; now left|].
    exists ("Users in the database:" ++ String newline "" ++ b)%string, a.
    fold (john_doe (new_rowid rnd (rows_of f))).
    rewrite Hl, str_line. now rewrite !append_assoc.
Qed.

Lemma commit_before_read_first_run :
  run 0 None = (Return tt, snd (run 0 None)) /\
  exists (v : Z) (committed : process),
    through_commit 0 (Some "John Doe") (Some "mosaproject1@gmail.com")
      (start None) = (Return tt, committed) /\
    In (john_doe v) (rows_of (file committed)) /\
    pending committed = None.
Proof.
  split; [reflexivity|].
  destruct (commit_before_read 0 None (snd (run 0 None)) eq_refl)
    as [v [c [H1 [H2 [H3 _]]]]].
  exists v, c. repeat split; assumption.
Defined.

(** C9.  On a file whose [users] table holds no row with the email
    'mosaproject1@gmail.com', the run returns and the table it leaves is
    the table it found with one row put in, the 'John Doe' row: every row
    that was there is there as it was, in the same order, and the table
    is one row longer. *)
Theorem existing_rows_kept (rnd : Z) (t : table) :
  (forall r, In r t -> email r <> "mosaproject1@gmail.com") ->
  let f := Some {| users := Some t |} in
  fst (run rnd f) = Return tt /\
  exists (v : Z) (t1 t2 : table),
    t = (t1 ++ t2)%list /\
    rows_of (file (snd (run rnd f))) = (t1 ++ john_doe v :: t2)%list /\
    List.length (rows_of (file (snd (run rnd f)))) = S (List.length t) /\
    forall r, In r t -> In r (rows_of (file (snd (run rnd f)))).
Proof.
  intros Hno f.
  assert (Huse : email_in_use "mosaproject1@gmail.com" t = false).
  { destruct (email_in_use "mosaproject1@gmail.com" t) eqn:E; [|reflexivity].
    apply email_in_use_iff in E. destruct E as [r [Hin He]].
    now destruct (Hno r Hin). }
  unfold run, script. rewrite sequence_start. subst f. cbn [rows_of users].
  rewrite (insert_john_doe _ _ Huse). cbn [fst snd file rows_of users].
  split; [reflexivity|].
  destruct (insert_row_split (john_doe (new_rowid rnd t)) t)
    as [t1 [t2 [Ht Hi]]].
  exists (new_rowid rnd t), t1, t2.
  split; [exact Ht|]. split; [exact Hi|]. split.
  - rewrite Hi, Ht, !length_app. simpl. lia.
  - intros r Hin. apply in_insert_row. now right.
Qed.

Lemma existing_rows_kept_example :
  (forall r, In r [ {| id := 1; name := "Jane Roe"; email := "b@y.com" |} ] ->
             email r <> "mosaproject1@gmail.com") /\
  rows_of (file (snd (run 0 (Some {| users := Some
      [ {| id := 1; name := "Jane Roe"; email := "b@y.com" |} ] |}))))
  = [ {| id := 1; name := "Jane Roe"; email := "b@y.com" |}; john_doe 2 ] /\
  fst (run 0 (Some {| users := Some
      [ {| id := 1; name := "Jane Roe"; email := "b@y.com" |} ] |}))
  = Return tt.
Proof.
  assert (H : forall r,
             In r [ {| id := 1; name := "Jane Roe"; email := "b@y.com" |} ] ->
             email r <> "mosaproject1@gmail.com").
  { intros r [<-|[]]. discriminate. }
  split; [exact H|]. split; [reflexivity|].
  exact (proj1 (existing_rows_kept 0 _ H)).
Defined.

(** *** Rowid allocation without the random draw *)

Lemma fold_max_below (bound : Z) (l : list Z) (a : Z) :
  a < bound -> Forall (fun x => x < bound) l ->
  fold_left Z.max l a < bound.
Proof.
  revert a. induction l as [|x l IH]; intros a Ha Hl; simpl; [exact Ha|].
  inversion Hl; subst. apply IH; [lia | assumption].
Qed.

Lemma new_rowid_sequential (rnd rnd' : Z) (t : table) :
  (forall r, In r t -> id r < MAX_ROWID) ->
  new_rowid rnd t = new_rowid rnd' t.
Proof.
  intros Hlt. unfold new_rowid, largest_rowid.
  destruct t as [|r t]; [reflexivity|].
  assert (H : fold_left Z.max (map id t) (id r) < MAX_ROWID).
  { apply fold_max_below; [apply Hlt; now left|].
    apply Forall_forall. intros x Hx. apply in_map_iff in Hx.
    destruct Hx as [r' [<- Hr']]. apply Hlt. now right. }
  apply Z.ltb_lt in H. now rewrite H.
Qed.

(** C10, as the code has it.  The run is a function of the file and of
    the engine's random draw, and of nothing else.  On a file whose
    [users] table holds no row with the largest id 9223372036854775807
    the draw is not used: two runs end the same way, with the same
    output and the same file. *)
Theorem run_deterministic (rnd rnd' : Z) (f : option database) :
  (forall r, In r (rows_of f) -> id r < MAX_ROWID) ->
  run rnd f = run rnd' f.
Proof.
  intros Hlt. unfold run, script. rewrite !sequence_start.
  unfold insert_into_users.
  now rewrite (new_rowid_sequential rnd rnd' _ Hlt).
Qed.

Lemma run_deterministic_second_run :
  (forall r, In r (rows_of (file (snd (run 0 None)))) -> id r < MAX_ROWID) /\
  run 5 (file (snd (run 0 None))) = run 7 (file (snd (run 0 None))).
Proof.
  assert (H : forall r, In r (rows_of (file (snd (run 0 None)))) ->
                        id r < MAX_ROWID).
  { intros r [<-|[]]. reflexivity. }
  split; [exact H|].
  exact (run_deterministic 5 7 _ H).
Defined.

(** C10 fails on a file whose table holds the largest id: the id of the
    new row is the engine's random pick among the ids not in use, so two
    runs from the same file differ in the file they leave and in what
    they print.  Here one run picks 1 and the other 2. *)
Lemma random_rowid_differs :
  let f := Some {| users := Some
             [ {| id := 9223372036854775807; name := "Jane Roe";
                  email := "b@y.com" |} ] |} in
  rows_of (file (snd (run 0 f)))
  = [ john_doe 1;
      {| id := 9223372036854775807; name := "Jane Roe"; email := "b@y.com" |} ] /\
  rows_of (file (snd (run 1 f)))
  = [ john_doe 2;
      {| id := 9223372036854775807; name := "Jane Roe"; email := "b@y.com" |} ] /\
  file (snd (run 0 f)) <> file (snd (run 1 f)) /\
  stdout (snd (run 0 f)) <> stdout (snd (run 1 f)).
Proof.
  repeat split; discriminate.
Qed.

(** *** The constraints keep the table consistent

    These hold for every table, reachable by the script or not. *)

Lemma map_insert_row {A} (g : row -> A) (r : row) (t : table) :
  Permutation (g r :: map g t) (map g (insert_row r t)).
Proof.
  destruct (insert_row_split r t) as [t1 [t2 [-> ->]]].
  rewrite !map_app. cbn [map]. apply Permutation_middle.
Qed.

(** An insertion that returns has checked the UNIQUE index: distinct
    emails stay distinct. *)
Lemma insert_keeps_emails_distinct (rnd : Z) (n e : option string)
  (t t' : table) :
  NoDup (map email t) ->
  insert_into_users rnd n e t = inl t' ->
  NoDup (map email t').
Proof.
  intros Hnd Hins. unfold insert_into_users in Hins.
  destruct n as [n|]; [|discriminate].
  destruct e as [e|]; [|discriminate].
  destruct (email_in_use e t) eqn:Huse; [discriminate|].
  injection Hins as <-.
  eapply Permutation_NoDup; [apply map_insert_row|].
  cbn [email]. constructor; [|exact Hnd].
  intros Hin. apply in_map_iff in Hin. destruct Hin as [r [He Hr]].
  assert (H : email_in_use e t = true)
    by (apply email_in_use_iff; now exists r).
  congruence.
Qed.

Lemma fold_max_above (l : list Z) (a : Z) :
  a <= fold_left Z.max l a /\
  forall x, In x l -> x <= fold_left Z.max l a.
Proof.
  revert a. induction l as [|y l IH]; intros a; cbn [fold_left].
  - split; [lia | contradiction].
  - destruct (IH (Z.max a y)) as [H1 H2]. split; [lia|].
    intros x [->|Hx]; [lia | now apply H2].
Qed.

(** Below the largest id the new id is above every id in use: distinct
    ids stay distinct. *)
Lemma insert_keeps_ids_distinct (rnd : Z) (n e : option string)
  (t t' : table) :
  NoDup (map id t) ->
  (forall r, In r t -> id r < MAX_ROWID) ->
  insert_into_users rnd n e t = inl t' ->
  NoDup (map id t').
Proof.
  intros Hnd Hlt Hins. unfold insert_into_users in Hins.
  destruct n as [n|]; [|discriminate].
  destruct e as [e|]; [|discriminate].
  destruct (email_in_use e t); [discriminate|].
  injection Hins as <-.
  eapply Permutation_NoDup; [apply map_insert_row|].
  cbn [id]. constructor; [|exact Hnd].
  intros Hin. apply in_map_iff in Hin. destruct Hin as [r [Hid Hr]].
  revert Hid. unfold new_rowid, largest_rowid.
  destruct t as [|r0 t0]; [contradiction|].
  assert (Hb : fold_left Z.max (map id t0) (id r0) < MAX_ROWID).
  { apply fold_max_below; [apply Hlt; now left|].
    apply Forall_forall. intros x Hx. apply in_map_iff in Hx.
    destruct Hx as [r' [<- Hr']]. apply Hlt. now right. }
  apply Z.ltb_lt in Hb. rewrite Hb.
  destruct (fold_max_above (map id t0) (id r0)) as [H1 H2].
  destruct Hr as [<-|Hr]; [lia|].
  specialize (H2 (id r) (in_map id _ _ Hr)). lia.
Qed.

(** *** What the script can reach

    Only the script's own row is ever inserted, and only once: every
    table of a reachable state, in the file or in an open transaction, is
    empty or holds the 'John Doe' row under id 1; and an open transaction
    holds every row of the file. *)

Ltac table_cases :=
  repeat match goal with
         | H : _ /\ _ |- _ => destruct H
         | H : rows_of (Some {| users := Some ?t |}) = _ \/ _ |- _ =>
             cbn [rows_of users] in H
         | H : ?t = [] \/ ?t = [_] |- _ => is_var t; destruct H; subst t
         end.

Lemma reachable_tables (p : process) :
  reachable p ->
  (rows_of (file p) = [] \/ rows_of (file p) = [john_doe 1]) /\
  (rows_of (pending p) = [] \/ rows_of (pending p) = [john_doe 1]) /\
  (pending p <> None ->
   forall r, In r (rows_of (file p)) -> In r (rows_of (pending p))).
Proof.
  induction 1 as [|rnd c p Hp IH Hc|p Hp IH].
  - cbn. repeat split; auto; try congruence.
  - destruct p as [f open pend rs out].
    cbn [file pending] in IH.
    destruct c as [| |q| | |s|]; cbn [perform].
    + (* connect *)
      destruct f as [[[t|]]|]; cbn in *; table_cases;
        repeat split; auto; try congruence.
    + (* cursor *)
      unfold cursor; cbn [connected]. destruct open; exact IH.
    + (* execute *)
      destruct q as [ine|n e|]; cbn [of_script] in Hc.
      * subst ine.
        destruct open; [|exact IH].
        destruct pend as [[[t|]]|]; destruct f as [[[t'|]]|];
          cbn in *; table_cases; cbn;
          repeat split; auto; try congruence; try contradiction;
          try solve [firstorder congruence].
      * destruct Hc as [-> ->].
        destruct open; [|exact IH].
        destruct pend as [[[t|]]|]; destruct f as [[[t'|]]|];
          cbn in *; table_cases; cbn;
          repeat split; auto; try congruence; try contradiction;
          try solve [firstorder congruence].
      * destruct open; [|exact IH].
        destruct pend as [[[t|]]|]; destruct f as [[[t'|]]|];
          cbn in *; table_cases; cbn;
          repeat split; auto; try congruence; try contradiction;
          try solve [firstorder congruence].
    + (* commit *)
      destruct open; [|exact IH].
      destruct pend as [[[t|]]|]; destruct f as [[[t'|]]|];
        cbn in *; table_cases; cbn;
        repeat split; auto; try congruence; try contradiction;
          try solve [firstorder congruence].
    + (* fetchall *)
      unfold fetchall; cbn [connected]. destruct open; exact IH.
    + (* print *)
      exact IH.
    + (* close *)
      cbn. destruct IH as [Hf _]. repeat split; auto; try congruence.
  - cbn. destruct IH as [Hf _]. repeat split; auto; try congruence.
Qed.

(** Whatever a call does, the rows of the file stay in the file, provided
    the open transaction, if any, holds them too. *)
Lemma call_keeps_rows (rnd : Z) (c : call) (p : process) :
  (pending p <> None ->
   forall r, In r (rows_of (file p)) -> In r (rows_of (pending p))) ->
  forall r, In r (rows_of (file p)) -> In r (rows_of (file (perform rnd c p))).
Proof.
  intros Hpend.
  destruct p as [f open pend rs out].
  destruct c as [| |q| | |s|]; cbn [perform];
    try (intros r Hr; exact Hr).
  - (* connect *)
    destruct f as [[[t|]]|]; cbn; auto.
  - (* cursor *)
    unfold cursor; cbn [connected]. destruct open; auto.
  - (* execute *)
    destruct open; [|auto].
    destruct q as [[|]|n e|];
      destruct pend as [[[t|]]|]; destruct f as [[[t'|]]|];
      cbn -[insert_into_users]; auto;
      unfold insert; cbn -[insert_into_users];
      destruct (insert_into_users rnd n e _); cbn; auto.
  - (* commit *)
    destruct open; [|auto].
    destruct pend as [db|]; [|auto].
    cbn in *. apply Hpend. congruence.
  - (* fetchall *)
    unfold fetchall; cbn [connected]. destruct open; auto.
Qed.

(** With the connection open and the email in use in the table the
    connection sees, the INSERT of line 14 raises. *)
Lemma execute_insert_duplicate (rnd : Z) (p : process) :
  connected p = true ->
  email_in_use "mosaproject1@gmail.com" (rows_of (Some (image p))) = true ->
  fst (execute rnd (INSERT (Some "John Doe") (Some "mosaproject1@gmail.com")) p)
  = Raise (IntegrityError (UNIQUE "users.email")).
Proof.
  intros Hopen Huse.
  destruct p as [f open pend rs out]. cbn in Hopen. subst open.
  destruct pend as [[[t|]]|]; destruct f as [[[t'|]]|];
    cbn -[email_in_use] in Huse; try discriminate Huse;
    cbn -[email_in_use]; unfold insert, insert_into_users;
    cbn -[email_in_use]; rewrite Huse; reflexivity.
Qed.

(** A run of the script is a series of its calls: from a reachable state
    it ends in a reachable state, also when it raises on the way. *)
Lemma bind_reachable {A B} (m : Py A) (k : A -> Py B) :
  (forall p, reachable p -> reachable (snd (m p))) ->
  (forall a p, reachable p -> reachable (snd (k a p))) ->
  forall p, reachable p -> reachable (snd (bind m k p)).
Proof.
  intros Hm Hk p Hp. unfold bind.
  specialize (Hm p Hp).
  destruct (m p) as [[a|e] p']; cbn [snd] in *; auto.
Qed.

Lemma for_each_print_reachable (rows : table) (p : process) :
  reachable p ->
  reachable (snd (for_each rows (fun row => print (str row)) p)).
Proof.
  revert p. induction rows as [|r rows IH]; intros p Hp; [exact Hp|].
  cbn [for_each]. apply bind_reachable; auto.
  intros q Hq. exact (reach_call 0 (Print (str r)) q Hq I).
Qed.

Lemma run_reachable (rnd : Z) (p : process) :
  reachable p -> reachable (snd (run rnd (file p))).
Proof.
  intros Hp. unfold run, script, sequence.
  pose proof (reach_rerun p Hp) as H0.
  revert H0. generalize (start (file p)). intros q Hq.
  apply bind_reachable; auto;
    [intros q0 Hq0; exact (reach_call rnd Connect q0 Hq0 I)|]; intros _.
  apply bind_reachable; auto;
    [intros q0 Hq0; exact (reach_call rnd Cursor q0 Hq0 I)|]; intros _.
  apply bind_reachable; auto;
    [intros q0 Hq0;
     exact (reach_call rnd (Execute (CREATE_TABLE true)) q0 Hq0 eq_refl)|];
    intros _.
  apply bind_reachable; auto;
    [intros q0 Hq0;
     exact (reach_call rnd (Execute (INSERT _ _)) q0 Hq0 (conj eq_refl eq_refl))|];
    intros _.
  apply bind_reachable; auto;
    [intros q0 Hq0; exact (reach_call rnd Commit q0 Hq0 I)|]; intros _.
  apply bind_reachable; auto;
    [intros q0 Hq0; exact (reach_call rnd (Execute SELECT) q0 Hq0 I)|];
    intros _.
  apply bind_reachable; auto;
    [intros q0 Hq0; exact (reach_call rnd Fetchall q0 Hq0 I)|]; intros rows.
  apply bind_reachable; auto.
  - unfold display. apply bind_reachable; auto.
    + intros q0 Hq0. exact (reach_call rnd (Print _) q0 Hq0 I).
    + intros _ q0 Hq0. now apply for_each_print_reachable.
  - intros _ q0 Hq0. exact (reach_call rnd Close q0 Hq0 I).
Qed.

Lemma small_table_distinct (db : option database) :
  rows_of db = [] \/ rows_of db = [john_doe 1] -> distinct db.
Proof.
  unfold distinct. intros [-> | ->]; cbn; split;
    repeat constructor; cbn; auto.
Qed.

(** C8.  In every state the script can reach, the ids of the table are
    pairwise distinct and so are the emails, in the file and in an open
    transaction.  Every call of the script and every further run keeps it
    so, and keeps in the file each row that is there, under its id; the
    INSERT of line 14 raises when the email is in use instead of adding a
    second row with it.  The insertion keeps emails distinct in any table,
    and ids distinct in any table below the largest id. *)
Theorem reachable_distinct (p : process) :
  reachable p ->
  distinct (file p) /\ distinct (pending p) /\
  (forall rnd c, of_script c ->
     distinct (file (perform rnd c p)) /\
     distinct (pending (perform rnd c p)) /\
     forall r, In r (rows_of (file p)) ->
               In r (rows_of (file (perform rnd c p)))) /\
  (forall rnd,
     distinct (file (snd (run rnd (file p)))) /\
     forall r, In r (rows_of (file p)) ->
               In r (rows_of (file (snd (run rnd (file p)))))) /\
  (forall rnd,
     connected p = true ->
     email_in_use "mosaproject1@gmail.com" (rows_of (Some (image p))) = true ->
     fst (execute rnd
            (INSERT (Some "John Doe") (Some "mosaproject1@gmail.com")) p)
     = Raise (IntegrityError (UNIQUE "users.email"))) /\
  (forall rnd n e t t',
     insert_into_users rnd n e t = inl t' ->
     (NoDup (map email t) -> NoDup (map email t')) /\
     (NoDup (map id t) -> (forall r, In r t -> id r < MAX_ROWID) ->
      NoDup (map id t'))).
Proof.
  intros Hp.
  destruct (reachable_tables p Hp) as [Hf [Hpd Hincl]].
  split; [now apply small_table_distinct|].
  split; [now apply small_table_distinct|].
  split; [|split; [|split]];
    [| | |intros rnd n e t t' Hins; split; intros;
          [eapply insert_keeps_emails_distinct
          |eapply insert_keeps_ids_distinct]; eauto].
  - intros rnd c Hc.
    destruct (reachable_tables _ (reach_call rnd c p Hp Hc)) as [Hf' [Hpd' _]].
    split; [now apply small_table_distinct|].
    split; [now apply small_table_distinct|].
    now apply call_keeps_rows.
  - intros rnd.
    destruct (reachable_tables _ (run_reachable rnd p Hp)) as [Hf' _].
    split; [now apply small_table_distinct|].
    intros r Hr. unfold run, script. rewrite sequence_start.
    destruct (file p) as [[[t|]]|]; cbn [rows_of users] in Hr |- *;
      try contradiction.
    unfold insert_into_users.
    destruct (email_in_use _ t); cbn; [exact Hr|].
    apply in_insert_row. now right.
  - intros rnd. apply execute_insert_duplicate.
Qed.

(** The state the first run ends in is reachable, and what C8 says of it
    holds. *)
Lemma reachable_distinct_first_run :
  reachable (snd (run 0 None)) /\
  distinct (file (snd (run 0 None))) /\
  distinct (file (snd (run 0 (file (snd (run 0 None)))))).
Proof.
  assert (H : reachable (snd (run 0 None))).
  { exact (run_reachable 0 (start None) reach_fresh). }
  split; [exact H|].
  destruct (reachable_distinct _ H) as [H1 [_ [_ [H4 _]]]].
  split; [exact H1|].
  exact (proj1 (H4 0)).
Defined.

(** ** Further properties of the script *)

Import Partial Reader.

(** *** Runs and the file they start from *)

(** X2.  The file counts through its rows only: a missing file, a file without
    the table and a file with an empty table give the same run. *)
Theorem run_rows_only (rnd : Z) (f g : option database) :
  rows_of f = rows_of g -> run rnd f = run rnd g.
Proof.
  intros H. unfold run, script. rewrite !sequence_start. now rewrite H.
Qed.

Lemma run_rows_only_empty_file :
  rows_of (Some empty_database) = rows_of None /\
  run 0 (Some empty_database) = run 0 None /\
  run 0 (Some {| users := Some [] |}) = run 0 None.
Proof.
  split; [reflexivity|]. split.
  - exact (run_rows_only 0 (Some empty_database) None eq_refl).
  - exact (run_rows_only 0 (Some {| users := Some [] |}) None eq_refl).
Defined.

Lemma email_in_use_insert_row (e : string) (r : row) (t : table) :
  email_in_use e (insert_row r t)
  = (String.eqb (email r) e || email_in_use e t)%bool.
Proof.
  destruct (insert_row_split r t) as [t1 [t2 [-> ->]]].
  unfold email_in_use. rewrite !existsb_app. cbn [existsb].
  destruct (existsb _ t1), (String.eqb (email r) e), (existsb _ t2);
    reflexivity.
Qed.

(** X3.  The script succeeds at most once on a store: after a run that
    returns, every further run on the file it left raises the
    IntegrityError and leaves that file as it is. *)
Theorem run_once (rnd rnd' : Z) (f : option database) :
  fst (run rnd f) = Return tt ->
  fst (run rnd' (file (snd (run rnd f))))
  = Raise (IntegrityError (UNIQUE "users.email")) /\
  file (snd (run rnd' (file (snd (run rnd f))))) = file (snd (run rnd f)).
Proof.
  intros Hret.
  assert (Huse : email_in_use "mosaproject1@gmail.com" (rows_of f) = false).
  { revert Hret. unfold run, script. rewrite sequence_start.
    unfold insert_into_users.
    destruct (email_in_use _ (rows_of f)); cbn; [discriminate | reflexivity]. }
  assert (Hfile : file (snd (run rnd f))
                  = Some {| users := Some (insert_row
                                             (john_doe (new_rowid rnd (rows_of f)))
                                             (rows_of f)) |}).
  { unfold run, script. rewrite sequence_start.
    now rewrite (insert_john_doe _ _ Huse). }
  rewrite Hfile. unfold run, script. rewrite sequence_start.
  cbn [rows_of users]. unfold insert_into_users.
  rewrite email_in_use_insert_row. cbn [email john_doe].
  rewrite String.eqb_refl. cbn. split; reflexivity.
Qed.

Lemma run_once_fresh :
  fst (run 0 None) = Return tt /\
  fst (run 1 (file (snd (run 0 None))))
  = Raise (IntegrityError (UNIQUE "users.email")).
Proof.
  split; [reflexivity|].
  exact (proj1 (run_once 0 1 None eq_refl)).
Defined.

(** *** Where the new row goes *)






Lemma insert_row_sorted (r : row) (t : table) :
  Sorted (fun a b => id a <= id b) t ->
  Sorted (fun a b => id a <= id b) (insert_row r t).
Proof.
  induction t as [|x t IH]; intros Hs; cbn [insert_row].
  - repeat constructor.
  - destruct (id r <? id x) eqn:E.
    + constructor; [exact Hs|]. constructor. apply Z.ltb_lt in E. lia.
    + apply Z.ltb_ge in E. inversion Hs as [|? ? Hs' Hhd]; subst.
      constructor; [now apply IH|].
      destruct t as [|y t]; cbn [insert_row].
      * now constructor.
      * destruct (id r <? id y); constructor; [exact E|].
        now inversion Hhd.
Qed.

(** X5.  Scan order.  When the rows of the file are in ascending order of id,
    so are the rows of the file the run leaves, whichever id the new row
    got: the run prints a table sorted by id. *)
Theorem run_keeps_id_order (rnd : Z) (f : option database) :
  Sorted (fun a b => id a <= id b) (rows_of f) ->
  Sorted (fun a b => id a <= id b) (rows_of (file (snd (run rnd f)))) /\
  (fst (run rnd f) = Return tt ->
   stdout (snd (run rnd f))
   = Spec.output (rows_of (file (snd (run rnd f))))).
Proof.
  intros Hs. unfold run, script. rewrite sequence_start.
  unfold insert_into_users.
  destruct (email_in_use _ (rows_of f)); cbn [fst snd file rows_of users stdout].
  - split; [exact Hs | discriminate].
  - split; [now apply insert_row_sorted | reflexivity].
Qed.

Lemma run_keeps_id_order_random :
  Sorted (fun a b => id a <= id b)
    (rows_of (Some {| users := Some
       [ {| id := 3; name := "Ann"; email := "a@x.com" |};
         {| id := MAX_ROWID; name := "Jane Roe"; email := "b@y.com" |} ] |})) /\
  rows_of (file (snd (run 9 (Some {| users := Some
       [ {| id := 3; name := "Ann"; email := "a@x.com" |};
         {| id := MAX_ROWID; name := "Jane Roe"; email := "b@y.com" |} ] |}))))
  = [ {| id := 3; name := "Ann"; email := "a@x.com" |};
      john_doe 10;
      {| id := MAX_ROWID; name := "Jane Roe"; email := "b@y.com" |} ] /\
  Sorted (fun a b => id a <= id b)
    (rows_of (file (snd (run 9 (Some {| users := Some
       [ {| id := 3; name := "Ann"; email := "a@x.com" |};
         {| id := MAX_ROWID; name := "Jane Roe"; email := "b@y.com" |} ] |}))))).
Proof.
  assert (H : Sorted (fun a b => id a <= id b)
    (rows_of (Some {| users := Some
       [ {| id := 3; name := "Ann"; email := "a@x.com" |};
         {| id := MAX_ROWID; name := "Jane Roe"; email := "b@y.com" |} ] |}))).
  { cbn. repeat constructor; cbn; discriminate. }
  split; [exact H|]. split; [reflexivity|].
  exact (proj1 (run_keeps_id_order 9 _ H)).
Defined.

(** *** The commit of line 17 *)

Lemma through_insert_start (rnd : Z) (n e : option string)
  (f : option database) :
  through_insert rnd n e (start f) =
  match insert_into_users rnd n e (rows_of f) with
  | inl t =>
      (Return tt,
       {| file := Some {| users := Some (rows_of f) |}; connected := true;
          pending := Some {| users := Some t |};
          result_set := []; stdout := "" |})
  | inr err =>
      (Raise (exception_of err),
       {| file := Some {| users := Some (rows_of f) |}; connected := true;
          pending := Some {| users := Some (rows_of f) |};
          result_set := []; stdout := "" |})
  end.
Proof.
  unfold through_insert.
  destruct f as [[[t|]]|]; cbn -[insert_into_users];
    unfold bind; cbn -[insert_into_users];
    unfold insert; cbn -[insert_into_users];
    destruct (insert_into_users rnd n e _) as [t'|err];
    reflexivity.
Qed.

(** X6.  Between the INSERT of line 14 and the commit of line 17 the new row is
    in the open transaction only: the connection sees it, the file has
    the rows it had.  The commit puts it into the file; closing the
    connection, or a later run on the file as it is, finds the file
    without it. *)
Theorem insert_durable_at_commit (rnd : Z) (f : option database) :
  (forall r, In r (rows_of f) -> email r <> "mosaproject1@gmail.com") ->
  exists (v : Z) (p : process),
    through_insert rnd (Some "John Doe") (Some "mosaproject1@gmail.com")
      (start f) = (Return tt, p) /\
    rows_of (file p) = rows_of f /\
    rows_of (Some (image p)) = insert_row (john_doe v) (rows_of f) /\
    rows_of (file (snd (commit p))) = insert_row (john_doe v) (rows_of f) /\
    rows_of (file (snd (close p))) = rows_of f /\
    pending (snd (close p)) = None /\
    rows_of (file (start (file p))) = rows_of f.
Proof.
  intros Hno.
  assert (Huse : email_in_use "mosaproject1@gmail.com" (rows_of f) = false).
  { destruct (email_in_use _ (rows_of f)) eqn:E; [|reflexivity].
    apply email_in_use_iff in E. destruct E as [r [Hin He]].
    now destruct (Hno r Hin). }
  exists (new_rowid rnd (rows_of f)). eexists.
  rewrite through_insert_start, (insert_john_doe _ _ Huse).
  split; [reflexivity|]. cbn. repeat split.
Qed.

Lemma insert_durable_at_commit_fresh :
  (forall r, In r (rows_of None) -> email r <> "mosaproject1@gmail.com") /\
  exists (v : Z) (p : process),
    through_insert 0 (Some "John Doe") (Some "mosaproject1@gmail.com")
      (start None) = (Return tt, p) /\
    rows_of (file p) = [] /\
    rows_of (file (snd (commit p))) = [john_doe v].
Proof.
  assert (H : forall r, In r (rows_of None) ->
                        email r <> "mosaproject1@gmail.com")
    by (intros r []).
  split; [exact H|].
  destruct (insert_durable_at_commit 0 None H)
    as [v [p [H1 [H2 [_ [H4 _]]]]]].
  exists v, p. repeat split; assumption.
Defined.

(** *** Ids stay 64-bit *)

Lemma new_rowid_range (rnd : Z) (t : table) :
  (forall r, In r t -> - 9223372036854775808 <= id r <= MAX_ROWID) ->
  - 9223372036854775808 <= new_rowid rnd t <= MAX_ROWID.
Proof.
  intros Hr. unfold new_rowid, largest_rowid.
  destruct t as [|r0 t0]; [unfold MAX_ROWID; lia|].
  destruct (fold_max_above (map id t0) (id r0)) as [H1 _].
  pose proof (Hr r0 (or_introl eq_refl)) as H0.
  destruct (Z.ltb_spec (fold_left Z.max (map id t0) (id r0)) MAX_ROWID)
    as [Hlt|Hge]; [lia|].
  change (Z.shiftr MAX_ROWID 1) with (Z.ones 62).
  rewrite Z.land_ones by lia.
  pose proof (Z.mod_pos_bound rnd (2 ^ 62) ltac:(lia)) as Hm.
  unfold MAX_ROWID. lia.
Qed.

(** X7.  When every id of the file is a signed 64-bit integer, so is every id
    of the file the run leaves: the id given to the new row, sequential
    or random, never leaves the range. *)
Theorem ids_stay_in_range (rnd : Z) (f : option database) :
  (forall r, In r (rows_of f) ->
             - 9223372036854775808 <= id r <= MAX_ROWID) ->
  forall r, In r (rows_of (file (snd (run rnd f)))) ->
            - 9223372036854775808 <= id r <= MAX_ROWID.
Proof.
  intros Hr r. unfold run, script. rewrite sequence_start.
  unfold insert_into_users.
  destruct (email_in_use _ (rows_of f)); cbn [snd file rows_of users];
    [apply Hr|].
  intros Hin. apply in_insert_row in Hin. destruct Hin as [->|Hin];
    [|now apply Hr].
  cbn [id]. now apply new_rowid_range.
Qed.

Lemma ids_stay_in_range_largest :
  (forall r, In r [ {| id := MAX_ROWID; name := "Jane Roe"; email := "b@y.com" |} ] ->
             - 9223372036854775808 <= id r <= MAX_ROWID) /\
  forall r,
    In r (rows_of (file (snd (run (-1)
      (Some {| users := Some
         [ {| id := MAX_ROWID; name := "Jane Roe"; email := "b@y.com" |} ] |}))))) ->
    - 9223372036854775808 <= id r <= MAX_ROWID.
Proof.
  assert (H : forall r,
    In r [ {| id := MAX_ROWID; name := "Jane Roe"; email := "b@y.com" |} ] ->
    - 9223372036854775808 <= id r <= MAX_ROWID).
  { intros r [<-|[]]. cbn. unfold MAX_ROWID. lia. }
  split; [exact H|].
  exact (ids_stay_in_range (-1)
           (Some {| users := Some
              [ {| id := MAX_ROWID; name := "Jane Roe"; email := "b@y.com" |} ] |})
           H).
Defined.

(** *** The printed text tells the rows apart *)

Lemma read_chars_repr_char (q c : ascii) (rest : string) :
  q = apostrophe \/ q = double_quote ->
  read_chars q (repr_char q c ++ rest) = push c (read_chars q rest).
Proof.
  intros [-> | ->];
    destruct c as [[|] [|] [|] [|] [|] [|] [|] [|]]; reflexivity.
Qed.

Lemma read_chars_repr_chars (q : ascii) (s rest : string) :
  q = apostrophe \/ q = double_quote ->
  read_chars q (repr_chars q s ++ String q rest) = Some (s, rest).
Proof.
  intros Hq. induction s as [|c s IH].
  - destruct Hq as [-> | ->]; reflexivity.
  - cbn [repr_chars]. rewrite append_assoc, read_chars_repr_char by exact Hq.
    now rewrite IH.
Qed.

(** Reading back what [repr] wrote for a text gives the text, and the
    rest of the input untouched. *)
Lemma read_quoted_repr_str (s rest : string) :
  read_quoted (repr_str s ++ rest) = Some (s, rest).
Proof.
  unfold repr_str.
  destruct (contains apostrophe s && negb (contains double_quote s))%bool;
    cbn [append read_quoted]; rewrite append_assoc;
    cbn [append Ascii.eqb apostrophe double_quote Bool.eqb orb];
    apply read_chars_repr_chars; auto.
Qed.

Lemma string_of_uint_no_comma (d : Decimal.uint) :
  Spec.count "," (NilEmpty.string_of_uint d) = O.
Proof.
  induction d; simpl; auto.
Qed.

Lemma repr_int_no_comma (v : Z) : Spec.count "," (repr (Int v)) = O.
Proof.
  cbn [repr].
  assert (H : forall d, Spec.count "," (NilZero.string_of_uint d) = O).
  { intros d. destruct d; try reflexivity;
      apply (string_of_uint_no_comma (_ d)). }
  destruct (Z.to_int v); simpl; now rewrite H.
Qed.

Lemma split_at_comma (a1 a2 y1 y2 : string) :
  Spec.count "," a1 = O -> Spec.count "," a2 = O ->
  (a1 ++ String "," y1 = a2 ++ String "," y2)%string ->
  a1 = a2 /\ y1 = y2.
Proof.
  revert a2. induction a1 as [|c a1 IH]; intros [|d a2] H1 H2 Heq;
    cbn [append] in Heq.
  - injection Heq as ->. now split.
  - injection Heq as <- _. cbn in H2. discriminate.
  - injection Heq as -> _. cbn in H1. discriminate.
  - injection Heq as -> Heq. cbn [Spec.count] in H1, H2.
    destruct (IH a2) as [-> ->]; try lia; try assumption. now split.
Qed.

Lemma repr_int_injective (v1 v2 : Z) :
  repr (Int v1) = repr (Int v2) -> v1 = v2.
Proof.
  cbn [repr]. intros H.
  assert (Hnn : forall v, Z.to_int v <> Decimal.Pos Decimal.Nil /\
                          Z.to_int v <> Decimal.Neg Decimal.Nil).
  { intros [|p|p]; cbn; split; try discriminate;
      intros E; injection E as E; now apply Unsigned.to_uint_nonnil in E. }
  apply (f_equal NilZero.int_of_string) in H.
  rewrite !NilZero.isi in H by apply Hnn.
  injection H as H. apply (f_equal Z.of_int) in H.
  now rewrite !DecimalZ.of_to in H.
Qed.

Lemma string_tail_eq (c : ascii) (a b : string) :
  String c a = String c b -> a = b.
Proof.
  intros H. now injection H.
Qed.

Lemma some_pair_eq {A B} (a c : A) (b d : B) :
  Some (a, b) = Some (c, d) -> a = c /\ b = d.
Proof.
  intros H. injection H as -> ->. now split.
Qed.

(** A line is read off the head of a text in one way only. *)
Lemma line_prefix_free (r1 r2 : row) (x1 x2 : string) :
  (Spec.line r1 ++ x1 = Spec.line r2 ++ x2)%string -> r1 = r2 /\ x1 = x2.
Proof.
  unfold Spec.line. rewrite !append_assoc. cbn [append].
  intros H. apply string_tail_eq in H.
  apply split_at_comma in H; try apply repr_int_no_comma.
  destruct H as [Hid H]. apply repr_int_injective in Hid.
  apply string_tail_eq in H. cbn [repr] in H.
  pose proof (f_equal read_quoted H) as Hn.
  rewrite !read_quoted_repr_str in Hn.
  apply some_pair_eq in Hn. destruct Hn as [Hname Hrest].
  do 2 apply string_tail_eq in Hrest.
  pose proof (f_equal read_quoted Hrest) as He.
  rewrite !read_quoted_repr_str in He.
  apply some_pair_eq in He. destruct He as [Hemail Hx].
  apply string_tail_eq in Hx.
  destruct r1, r2; cbn in *; subst; now split.
Qed.

Lemma lines_injective (t1 t2 : table) :
  Spec.lines t1 = Spec.lines t2 -> t1 = t2.
Proof.
  revert t2. induction t1 as [|r1 t1 IH]; intros [|r2 t2] H.
  - reflexivity.
  - cbn in H. discriminate.
  - cbn in H. discriminate.
  - cbn [Spec.lines] in H. apply line_prefix_free in H.
    destruct H as [-> H]. injection H as H. now rewrite (IH t2 H).
Qed.

Lemma append_inv_head (a x y : string) :
  (a ++ x = a ++ y)%string -> x = y.
Proof.
  induction a as [|c a IH]; cbn [append]; intros H; [exact H|].
  injection H as H. now apply IH.
Qed.

(** X8.  Two different rows are never printed as the same line. *)
Theorem str_tells_rows_apart (r1 r2 : row) :
  r1 <> r2 -> str r1 <> str r2.
Proof.
  intros Hne Heq. apply Hne. rewrite !str_line in Heq.
  assert (H : (Spec.line r1 ++ "" = Spec.line r2 ++ "")%string)
    by now rewrite !append_empty_r.
  now apply line_prefix_free in H.
Qed.

Lemma str_tells_rows_apart_comma :
  {| id := 1; name := "a', 'b"; email := "c" |}
  <> {| id := 1; name := "a"; email := "b', 'c" |} /\
  str {| id := 1; name := "a', 'b"; email := "c" |}
  <> str {| id := 1; name := "a"; email := "b', 'c" |}.
Proof.
  assert (H : {| id := 1; name := "a', 'b"; email := "c" |}
              <> {| id := 1; name := "a"; email := "b', 'c" |})
    by discriminate.
  split; [exact H|].
  exact (str_tells_rows_apart _ _ H).
Defined.

(** X9.  What lines 24 to 26 print determines the rows fetched: from the same
    state, two different lists of rows give two different outputs. *)
Theorem display_tells_tables_apart (rows1 rows2 : table) (p : process) :
  rows1 <> rows2 ->
  stdout (snd (display rows1 p)) <> stdout (snd (display rows2 p)).
Proof.
  intros Hne Heq. apply Hne.
  rewrite !display_output in Heq. cbn [snd set_stdout stdout] in Heq.
  apply append_inv_head in Heq. unfold Spec.output in Heq.
  apply append_inv_head in Heq. cbn [append] in Heq.
  injection Heq as Heq. now apply lines_injective.
Qed.

Lemma display_tells_tables_apart_order :
  [john_doe 1; john_doe 2] <> [john_doe 2; john_doe 1] /\
  stdout (snd (display [john_doe 1; john_doe 2] (start None)))
  <> stdout (snd (display [john_doe 2; john_doe 1] (start None))).
Proof.
  assert (H : [john_doe 1; john_doe 2] <> [john_doe 2; john_doe 1])
    by discriminate.
  split; [exact H|].
  exact (display_tells_tables_apart _ _ (start None) H).
Defined.

(** *** Plain texts are printed as they are *)

Lemma repr_char_plain (c : ascii) :
  plain c = true ->
  repr_char apostrophe c = String c "" /\ Ascii.eqb c apostrophe = false.
Proof.
  destruct c as [[|] [|] [|] [|] [|] [|] [|] [|]]; intros H;
    try discriminate H; split; reflexivity.
Qed.

Lemma repr_chars_plain (s : string) :
  all_plain s = true ->
  repr_chars apostrophe s = s /\ contains apostrophe s = false.
Proof.
  induction s as [|c s IH]; intros H; [split; reflexivity|].
  cbn [all_plain] in H. apply andb_true_iff in H. destruct H as [Hc Hs].
  destruct (repr_char_plain c Hc) as [Hr Hq].
  destruct (IH Hs) as [IH1 IH2].
  cbn [repr_chars contains]. rewrite Hr, IH1, Hq, IH2. split; reflexivity.
Qed.

(** X10.  A name and an email of printable ASCII characters with no apostrophe
    and no backslash are printed unchanged between apostrophes: the line
    of the row is [(id, 'name', 'email')] with the id in decimal. *)
Theorem str_plain (r : row) :
  all_plain (name r) = true ->
  all_plain (email r) = true ->
  str r
  = ("(" ++ NilZero.string_of_int (Z.to_int (id r)) ++ ", '" ++ name r
         ++ "', '" ++ email r ++ "')")%string.
Proof.
  intros Hn He. rewrite str_line. unfold Spec.line. cbn [repr].
  unfold repr_str.
  destruct (repr_chars_plain _ Hn) as [Hn1 Hn2].
  destruct (repr_chars_plain _ He) as [He1 He2].
  rewrite Hn2, He2. cbn [andb]. rewrite Hn1, He1.
  unfold apostrophe. cbn [append]. rewrite !append_assoc. reflexivity.
Qed.

Lemma str_plain_john_doe :
  all_plain (name (john_doe 1)) = true /\
  all_plain (email (john_doe 1)) = true /\
  str (john_doe 1) = "(1, 'John Doe', 'mosaproject1@gmail.com')".
Proof.
  split; [reflexivity|]. split; [reflexivity|].
  exact (str_plain (john_doe 1) eq_refl eq_refl).
Defined.

(** *** What a run prints *)




